(** * Probability-of-touch calculator (app.py): shallow embedding

    Numbers of the Python program are modelled as real numbers ([R]);
    [math.log] is [ln], [math.sqrt] is [sqrt], [abs] is [Rabs].
    [scipy.stats.norm.cdf] is a library function: it is a parameter [Phi]
    of the development, and the facts about the standard normal CDF that a
    proof needs are stated as hypotheses on it. *)

From Stdlib Require Import Reals Lra Lia ZArith List Bool.
Import ListNotations.
Open Scope R_scope.

(** ** Comparisons of Python floats, as booleans *)

Definition Rleb (x y : R) : bool := if Rle_dec x y then true else false.
Definition Rltb (x y : R) : bool := if Rlt_dec x y then true else false.
Definition Reqb (x y : R) : bool := if Req_EM_T x y then true else false.

(** ** Outcomes of a run: a value, or one of the two ways the script stops *)

Inductive error :=
| StrikeUnavailable  (** [st.error("... not available in the options chain ...")]; [st.stop()] (line 124) *)
| Raised.            (** an exception, caught by [except Exception] (line 217) *)

Inductive result (A : Type) :=
| Ok (a : A)
| Err (e : error).
Arguments Ok {A} a.
Arguments Err {A} e.

Definition bind {A B} (m : result A) (f : A -> result B) : result B :=
  match m with Ok a => f a | Err e => Err e end.

Notation "x <- m ; k" := (bind m (fun x => k))
  (at level 61, m at next level, right associativity).

(** A Python computation that may raise, as [option]: [None] is a raise. *)
Definition of_option {A} (o : option A) : result A :=
  match o with Some a => Ok a | None => Err Raised end.

Section Model.

(** [scipy.stats.norm.cdf] *)
Variable Phi : R -> R.

(** ** [prob_touch] (lines 13-19)

    [log(S / K)] raises [ZeroDivisionError] when [K = 0] and
    [ValueError] when [S / K <= 0]: both are [None]. *)
Definition prob_touch (S K T sigma : R) : option R :=
  if Rleb T 0 || Rleb sigma 0 then Some 0
  else if Reqb K 0 then None
  else if Rleb (S / K) 0 then None
  else Some (2 * (1 - Phi (Rabs (ln (S / K)) / (sigma * sqrt T)))).

(** ** Data of one run (sidebar inputs and the fetched option chain) *)

Inductive strategy_t := IronCondor | ShortPut | ShortCall.

(** A row of [opt_chain.calls] / [opt_chain.puts], with the columns used. *)
Record option_row := {
  strike : R;
  impliedVolatility : R
}.

Record inputs := {
  strategy : strategy_t;
  S : R;                       (** [regularMarketPrice] *)
  T : R;                       (** [actual_days_to_expiration / 365.0] *)
  use_custom_strikes : bool;
  custom_call_input : R;       (** value of the "Custom Call Strike" field *)
  custom_put_input : R;        (** value of the "Custom Put Strike" field *)
  pct_OTM : R;
  calls : list option_row;
  puts : list option_row
}.

(** [strategy in ["Iron Condor", "Short Call"]] and
    [strategy in ["Iron Condor", "Short Put"]] *)
Definition uses_call (s : strategy_t) : bool :=
  match s with IronCondor | ShortCall => true | ShortPut => false end.
Definition uses_put (s : strategy_t) : bool :=
  match s with IronCondor | ShortPut => true | ShortCall => false end.

(** Lines 38-49: a custom field is shown, hence not [None], only for the
    legs of the selected strategy. *)
Definition custom_call_strike (inp : inputs) : option R :=
  if use_custom_strikes inp && uses_call (strategy inp)
  then Some (custom_call_input inp) else None.
Definition custom_put_strike (inp : inputs) : option R :=
  if use_custom_strikes inp && uses_put (strategy inp)
  then Some (custom_put_input inp) else None.

(** ** Strike resolution (lines 113-116)

    [strikes.iloc[(strikes - target).abs().argsort()[0]]]: the strike at
    the first position of the ascending order of the distances; among equal
    distances the earlier position comes first.  An empty chain makes
    [argsort()[0]] raise. *)
Fixpoint nearest_from (target best : R) (l : list R) : R :=
  match l with
  | [] => best
  | s :: rest =>
      if Rltb (Rabs (s - target)) (Rabs (best - target))
      then nearest_from target s rest
      else nearest_from target best rest
  end.

Definition nearest_strike (strikes : list R) (target : R) : result R :=
  match strikes with
  | [] => Err Raised
  | s :: rest => Ok (nearest_from target s rest)
  end.

Definition call_target (inp : inputs) : R := S inp * (1 + pct_OTM inp / 100).
Definition put_target (inp : inputs) : R := S inp * (1 - pct_OTM inp / 100).

(** Lines 109-116: [(call_strike, put_strike)]. *)
Definition choose_strikes (inp : inputs) : result (option R * option R) :=
  if use_custom_strikes inp then Ok (custom_call_strike inp, custom_put_strike inp)
  else
    call_strike <- nearest_strike (map strike (calls inp)) (call_target inp);
    put_strike <- nearest_strike (map strike (puts inp)) (put_target inp);
    Ok (Some call_strike, Some put_strike).

(** Lines 119-120: [calls[calls['strike'] == call_strike]], or [None]. *)
Definition filter_rows (rows : list option_row) (k : option R)
  : option (list option_row) :=
  match k with
  | None => None
  | Some k => Some (filter (fun r => Reqb (strike r) k) rows)
  end.

Definition leg_rows (inp : inputs) (call_strike put_strike : option R)
  : option (list option_row) * option (list option_row) :=
  (filter_rows (calls inp) call_strike, filter_rows (puts inp) put_strike).

(** [row is None or row.empty] (lines 122-123) *)
Definition row_missing (row : option (list option_row)) : bool :=
  match row with None | Some [] => true | Some (_ :: _) => false end.

(** Lines 128-129: [row['impliedVolatility'].iloc[0] if row is not None
    else None]; [iloc[0]] raises on an empty frame. *)
Definition first_iv (row : option (list option_row)) : result (option R) :=
  match row with
  | None => Ok None
  | Some [] => Err Raised
  | Some (r :: _) => Ok (Some (impliedVolatility r))
  end.

(** Lines 144-145: [prob_touch(S, strike, T, iv) if iv is not None else 0].
    The last branch is not reached: an IV comes from a row, and a row
    exists only for a selected strike. *)
Definition leg_pot (S0 T0 : R) (k : option R) (iv : option R) : result R :=
  match iv, k with
  | None, _ => Ok 0
  | Some v, Some k => of_option (prob_touch S0 k T0 v)
  | Some _, None => Err Raised
  end.

(** ** Combination of the legs (lines 147-151) *)

Definition clamp01 (p : R) : R := Rmin (Rmax p 0) 1.

Record outcome := {
  pot_call : R;
  pot_put : R;
  prob_either_touch : R;
  prob_neither_touch : R
}.

Definition combine (pot_call0 pot_put0 : R) : outcome :=
  let pc := clamp01 pot_call0 in
  let pp := clamp01 pot_put0 in
  let either := pc + pp - pc * pp in
  {| pot_call := pc; pot_put := pp;
     prob_either_touch := either; prob_neither_touch := 1 - either |}.

(** ** One run of lines 109-151 *)

Definition evaluate (inp : inputs) : result outcome :=
  ks <- choose_strikes inp;
  let '(call_strike, put_strike) := ks in
  let '(call_row, put_row) := leg_rows inp call_strike put_strike in
  if (uses_call (strategy inp) && row_missing call_row)
     || (uses_put (strategy inp) && row_missing put_row)
  then Err StrikeUnavailable
  else
    call_iv <- first_iv call_row;
    put_iv <- first_iv put_row;
    pc <- leg_pot (S inp) (T inp) call_strike call_iv;
    pp <- leg_pot (S inp) (T inp) put_strike put_iv;
    Ok (combine pc pp).

End Model.

(** ** Expiration choice (lines 87-101)

    A date is its proleptic ordinal ([date.toordinal()]): day 1 is
    0001-01-01 and day 3652059 is 9999-12-31; [today + timedelta(days=n)]
    raises [OverflowError] outside that range.  The expiration strings of
    [ticker.options] are taken as already parsed dates. *)

Definition date_min : Z := 1%Z.
Definition date_max : Z := 3652059%Z.

(** The messages a run can end with. *)
Inductive stop_message :=
| NoLivePrice          (** line 84 *)
| NoOptionsData        (** line 89 *)
| NoFutureExpirations  (** line 96 *)
| StrikeNotAvailable   (** line 124 *)
| SomethingWentWrong.  (** line 218: an exception *)

(** [min(future, key=lambda d: abs(d - target))]: Python's [min] keeps the
    first of the items with the least key. *)
Fixpoint min_by_distance (target best : Z) (l : list Z) : Z :=
  match l with
  | [] => best
  | d :: rest =>
      if (Z.abs (d - target) <? Z.abs (best - target))%Z
      then min_by_distance target d rest
      else min_by_distance target best rest
  end.

Inductive expiry :=
| ExpiryStop (m : stop_message)
| ExpiryAt (closest_expiration actual_days_to_expiration : Z).

Definition select_expiration (today days_to_expiration : Z) (expirations : list Z)
  : expiry :=
  match expirations with
  | [] => ExpiryStop NoOptionsData
  | _ :: _ =>
      let target := (today + days_to_expiration)%Z in
      if negb (date_min <=? target)%Z || negb (target <=? date_max)%Z
      then ExpiryStop SomethingWentWrong
      else
        match filter (fun d => today <=? d)%Z expirations with
        | [] => ExpiryStop NoFutureExpirations
        | d0 :: rest =>
            let closest := min_by_distance target d0 rest in
            ExpiryAt closest (closest - today)%Z
        end
  end.

(** ** A whole run (lines 75-151) *)

(** What the data calls return: [regularMarketPrice] (or [None]), the
    [Close] column of the 2-day download, and the expirations. *)
Record market := {
  price : option R;
  closes : list R;
  expirations : list Z
}.

(** The sidebar inputs with the fetched price and the horizon filled in. *)
Definition with_market (ui : inputs) (s t : R) : inputs :=
  {| strategy := strategy ui; S := s; T := t;
     use_custom_strikes := use_custom_strikes ui;
     custom_call_input := custom_call_input ui;
     custom_put_input := custom_put_input ui;
     pct_OTM := pct_OTM ui; calls := calls ui; puts := puts ui |}.

(** The same inputs with another call (put) chain. *)
Definition with_calls (inp : inputs) (cs : list option_row) : inputs :=
  {| strategy := strategy inp; S := S inp; T := T inp;
     use_custom_strikes := use_custom_strikes inp;
     custom_call_input := custom_call_input inp;
     custom_put_input := custom_put_input inp;
     pct_OTM := pct_OTM inp; calls := cs; puts := puts inp |}.
Definition with_puts (inp : inputs) (ps : list option_row) : inputs :=
  {| strategy := strategy inp; S := S inp; T := T inp;
     use_custom_strikes := use_custom_strikes inp;
     custom_call_input := custom_call_input inp;
     custom_put_input := custom_put_input inp;
     pct_OTM := pct_OTM inp; calls := calls inp; puts := ps |}.

Inductive run_outcome :=
| Stopped (m : stop_message)
| Completed (closest_expiration actual_days_to_expiration : Z) (o : outcome).

(** [previous_day_data['Close'].iloc[-2]] raises on fewer than two rows;
    [(S - previous_close)] raises a [TypeError] when [S] is [None]
    (line 81), before the [S is None] check of line 83.  The value of
    [percentage_change] is never used (a zero close gives a numpy [inf],
    not an exception).  The chain of the
    closest expiration is the one in [ui]; the run uses
    [T = actual_days_to_expiration / 365.0] (line 142). *)
Definition run (Phi : R -> R) (m : market) (today days_to_expiration : Z)
  (ui : inputs) : run_outcome :=
  if (length (closes m) <? 2)%nat then Stopped SomethingWentWrong
  else
    let previous_close := nth (length (closes m) - 2) (closes m) 0 in
    let percentage_change :=
      match price m with
      | None => None
      | Some s => Some ((s - previous_close) / previous_close * 100)
      end in
    match percentage_change with
    | None => Stopped SomethingWentWrong
    | Some _ =>
        match price m with
        | None => Stopped NoLivePrice
        | Some s =>
            match select_expiration today days_to_expiration (expirations m) with
            | ExpiryStop msg => Stopped msg
            | ExpiryAt closest d =>
                match evaluate Phi (with_market ui s (IZR d / 365)) with
                | Ok o => Completed closest d o
                | Err StrikeUnavailable => Stopped StrikeNotAvailable
                | Err Raised => Stopped SomethingWentWrong
                end
            end
        end
    end.

(** ** Facts about the comparisons *)

Lemma Rleb_true (x y : R) : x <= y -> Rleb x y = true.
Proof. intros H; unfold Rleb; destruct (Rle_dec x y); [reflexivity | contradiction]. Qed.

Lemma Rleb_false (x y : R) : y < x -> Rleb x y = false.
Proof. intros H; unfold Rleb; destruct (Rle_dec x y); [lra | reflexivity]. Qed.

Lemma Rltb_spec (x y : R) : Rltb x y = true <-> x < y.
Proof. unfold Rltb; destruct (Rlt_dec x y); split; intros; auto; discriminate || contradiction. Qed.

Lemma Reqb_false (x y : R) : x <> y -> Reqb x y = false.
Proof. intros H; unfold Reqb; destruct (Req_EM_T x y); [contradiction | reflexivity]. Qed.

Lemma Reqb_true (x y : R) : x = y -> Reqb x y = true.
Proof. intros H; unfold Reqb; destruct (Req_EM_T x y); [reflexivity | contradiction]. Qed.

(** ** A sample CDF: [1/2 + z / (2 (1 + |z|))], strictly increasing from 0 to 1 *)

Definition Phi_ex (z : R) : R := 1 / 2 + z / (2 * (1 + Rabs z)).

Lemma Phi_ex_half : Phi_ex 0 = 1 / 2.
Proof. unfold Phi_ex; rewrite Rabs_R0; field. Qed.

Lemma Phi_ex_incr (x y : R) : x < y -> Phi_ex x < Phi_ex y.
Proof.
  intros Hxy; unfold Phi_ex.
  assert (Hx : 0 < 1 + Rabs x) by (pose proof (Rabs_pos x); lra).
  assert (Hy : 0 < 1 + Rabs y) by (pose proof (Rabs_pos y); lra).
  apply Rplus_lt_compat_l.
  unfold Rdiv; rewrite !Rinv_mult.
  apply Rmult_lt_reg_r with (r := 2 * ((1 + Rabs x) * (1 + Rabs y))).
  { apply Rmult_lt_0_compat; [lra | now apply Rmult_lt_0_compat]. }
  replace (x * (/ 2 * / (1 + Rabs x)) * (2 * ((1 + Rabs x) * (1 + Rabs y))))
    with (x * (1 + Rabs y)) by (field; lra).
  replace (y * (/ 2 * / (1 + Rabs y)) * (2 * ((1 + Rabs x) * (1 + Rabs y))))
    with (y * (1 + Rabs x)) by (field; lra).
  destruct (Rcase_abs x) as [Hx0 | Hx0]; destruct (Rcase_abs y) as [Hy0 | Hy0].
  - rewrite (Rabs_left x), (Rabs_left y) by lra; nra.
  - rewrite (Rabs_left x), (Rabs_right y) by lra; nra.
  - lra.
  - rewrite (Rabs_right x), (Rabs_right y) by lra; nra.
Qed.

Lemma Phi_ex_le1 (z : R) : Phi_ex z <= 1.
Proof.
  unfold Phi_ex.
  assert (H : 0 < 1 + Rabs z) by (pose proof (Rabs_pos z); lra).
  assert (z / (2 * (1 + Rabs z)) <= 1 / 2); [|lra].
  apply Rmult_le_reg_r with (r := 2 * (1 + Rabs z)); [lra|].
  replace (z / (2 * (1 + Rabs z)) * (2 * (1 + Rabs z))) with z by (field; lra).
  pose proof (Rle_abs z); lra.
Qed.

(** ** [prob_touch] away from the short-circuit *)

Lemma prob_touch_formula (Phi : R -> R) (S0 K T0 sigma : R) :
  0 < S0 -> 0 < K -> 0 < T0 -> 0 < sigma ->
  prob_touch Phi S0 K T0 sigma
  = Some (2 * (1 - Phi (Rabs (ln (S0 / K)) / (sigma * sqrt T0)))).
Proof.
  intros HS HK HT Hs; unfold prob_touch.
  rewrite (Rleb_false T0 0 HT), (Rleb_false sigma 0 Hs), (Reqb_false K 0) by lra.
  assert (Hq : 0 < S0 / K) by (apply Rdiv_lt_0_compat; assumption).
  rewrite (Rleb_false _ _ Hq); reflexivity.
Qed.

Lemma prob_touch_short_circuit (Phi : R -> R) (S0 K T0 sigma : R) :
  T0 <= 0 \/ sigma <= 0 -> prob_touch Phi S0 K T0 sigma = Some 0.
Proof.
  intros [H | H]; unfold prob_touch.
  - rewrite (Rleb_true T0 0 H); reflexivity.
  - rewrite (Rleb_true sigma 0 H), orb_true_r; reflexivity.
Qed.

Lemma scale_pos (T0 sigma : R) : 0 < T0 -> 0 < sigma -> 0 < sigma * sqrt T0.
Proof. intros HT Hs; apply Rmult_lt_0_compat; [assumption | now apply sqrt_lt_R0]. Qed.

Lemma ln_div_swap (S0 K : R) : 0 < S0 -> 0 < K -> Rabs (ln (K / S0)) = Rabs (ln (S0 / K)).
Proof.
  intros HS HK.
  replace (K / S0) with (/ (S0 / K)) by (field; lra).
  rewrite ln_Rinv by (apply Rdiv_lt_0_compat; assumption); apply Rabs_Ropp.
Qed.

Lemma clamp01_unit (p : R) : 0 <= clamp01 p <= 1.
Proof.
  unfold clamp01; split.
  - apply Rmin_glb; [apply Rmax_r | lra].
  - apply Rmin_r.
Qed.

(** A run that does not stop ends in [combine]. *)
Lemma evaluate_combine (Phi : R -> R) (inp : inputs) (o : outcome) :
  evaluate Phi inp = Ok o -> exists pc pp, o = combine pc pp.
Proof.
  unfold evaluate, bind.
  destruct (choose_strikes inp) as [[cs ps]|]; [|discriminate].
  destruct (leg_rows inp cs ps) as [cr pr].
  destruct (_ || _); [discriminate|].
  destruct (first_iv cr); [|discriminate].
  destruct (first_iv pr); [|discriminate].
  destruct (leg_pot Phi (S inp) (T inp) cs _) as [pc|]; [|discriminate].
  destruct (leg_pot Phi (S inp) (T inp) ps _) as [pp|]; [|discriminate].
  intros H; injection H as <-; exists pc, pp; reflexivity.
Qed.

Section Cdf.

Variable Phi : R -> R.
Hypothesis Phi_half : Phi 0 = 1 / 2.
Hypothesis Phi_incr : forall x y, x < y -> Phi x < Phi y.
Hypothesis Phi_le1 : forall x, Phi x <= 1.

Lemma Phi_ge_half (z : R) : 0 <= z -> 1 / 2 <= Phi z.
Proof.
  intros Hz; destruct (Req_dec z 0) as [-> | Hne]; [lra|].
  rewrite <- Phi_half; left; apply Phi_incr; lra.
Qed.

(** C2: for S, K, T, sigma > 0, [prob_touch] (the spec's [estimate_touch])
    returns [2 (1 - Phi(|ln(S/K)| / (sigma sqrt T)))] and does not raise. *)
Theorem prob_touch_closed_form (S0 K T0 sigma : R) :
  0 < S0 -> 0 < K -> 0 < T0 -> 0 < sigma ->
  prob_touch Phi S0 K T0 sigma
  = Some (2 * (1 - Phi (Rabs (ln (S0 / K)) / (sigma * sqrt T0)))).
Proof. apply prob_touch_formula. Qed.

(** C3: whenever T <= 0 or sigma <= 0, [prob_touch] returns 0 without
    raising, for every S and K (also K = 0 or S / K <= 0). *)
Theorem prob_touch_degenerate (S0 K T0 sigma : R) :
  T0 <= 0 \/ sigma <= 0 -> prob_touch Phi S0 K T0 sigma = Some 0.
Proof. apply prob_touch_short_circuit. Qed.

(** C4: at the money, for S, T, sigma > 0, [prob_touch S S T sigma] is exactly 1. *)
Theorem prob_touch_at_the_money (S0 T0 sigma : R) :
  0 < S0 -> 0 < T0 -> 0 < sigma -> prob_touch Phi S0 S0 T0 sigma = Some 1.
Proof.
  intros HS HT Hs; rewrite prob_touch_formula by assumption.
  replace (S0 / S0) with 1 by (field; lra); rewrite ln_1, Rabs_R0.
  unfold Rdiv; rewrite Rmult_0_l, Phi_half; f_equal; lra.
Qed.

Lemma touch_z_nonneg (S0 K T0 sigma : R) :
  0 < T0 -> 0 < sigma -> 0 <= Rabs (ln (S0 / K)) / (sigma * sqrt T0).
Proof.
  intros HT Hs; unfold Rdiv; apply Rmult_le_pos; [apply Rabs_pos|].
  left; apply Rinv_0_lt_compat, scale_pos; assumption.
Qed.

Lemma touch_formula_unit (z : R) : 0 <= z -> 0 <= 2 * (1 - Phi z) <= 1.
Proof. intros Hz; pose proof (Phi_ge_half z Hz); pose proof (Phi_le1 z); lra. Qed.

(** C5: for S, K, T, sigma > 0, [prob_touch] returns a value in [0, 1];
    and in every run that reaches the combination (lines 147-151), each
    leg's touch probability is the clamp [min(max(p, 0), 1)] of its raw
    value, lies in [0, 1], and the combination uses the clamped values. *)
Theorem prob_touch_in_unit_interval :
  (forall S0 K T0 sigma, 0 < S0 -> 0 < K -> 0 < T0 -> 0 < sigma ->
     exists p, prob_touch Phi S0 K T0 sigma = Some p /\ 0 <= p <= 1)
  /\ (forall inp,
        match evaluate Phi inp with
        | Ok o => exists pc pp,
            pot_call o = clamp01 pc /\ pot_put o = clamp01 pp
            /\ 0 <= pot_call o <= 1 /\ 0 <= pot_put o <= 1
            /\ prob_either_touch o = pot_call o + pot_put o - pot_call o * pot_put o
        | Err _ => True
        end).
Proof.
  split.
  - intros S0 K T0 sigma HS HK HT Hs; rewrite prob_touch_formula by assumption.
    eexists; split; [reflexivity|].
    apply touch_formula_unit, touch_z_nonneg; assumption.
  - intros inp; destruct (evaluate Phi inp) as [o|] eqn:E; [|exact I].
    destruct (evaluate_combine Phi inp o E) as (pc & pp & ->).
    exists pc, pp; cbn.
    repeat split; try reflexivity; apply clamp01_unit.
Qed.

(** C6: with S, T, sigma > 0 fixed, a strike K1 > 0 with a smaller
    [|ln(S/K)|] than a strike K2 > 0 gets a strictly larger touch probability. *)
Theorem prob_touch_strictly_decreasing (S0 K1 K2 T0 sigma : R) :
  0 < S0 -> 0 < T0 -> 0 < sigma -> 0 < K1 -> 0 < K2 ->
  Rabs (ln (S0 / K1)) < Rabs (ln (S0 / K2)) ->
  exists p1 p2, prob_touch Phi S0 K1 T0 sigma = Some p1
    /\ prob_touch Phi S0 K2 T0 sigma = Some p2 /\ p2 < p1.
Proof.
  intros HS HT Hs HK1 HK2 Hlt.
  rewrite !prob_touch_formula by assumption.
  do 2 eexists; split; [reflexivity | split; [reflexivity|]].
  assert (Hz : Rabs (ln (S0 / K1)) / (sigma * sqrt T0)
               < Rabs (ln (S0 / K2)) / (sigma * sqrt T0)).
  { unfold Rdiv; apply Rmult_lt_compat_r; [|assumption].
    apply Rinv_0_lt_compat, scale_pos; assumption. }
  apply Phi_incr in Hz; lra.
Qed.

(** C10: for S, K > 0 and every T, sigma, [prob_touch S K T sigma] equals
    [prob_touch K S T sigma]: there is no in-the-money short-circuit, and
    for S <> K, T > 0, sigma > 0 the result is strictly below 1. *)
Theorem prob_touch_symmetric (S0 K T0 sigma : R) :
  0 < S0 -> 0 < K ->
  prob_touch Phi S0 K T0 sigma = prob_touch Phi K S0 T0 sigma
  /\ (0 < T0 -> 0 < sigma -> S0 <> K ->
      exists p, prob_touch Phi S0 K T0 sigma = Some p /\ p < 1).
Proof.
  intros HS HK; split.
  - destruct (Rle_dec T0 0) as [HT | HT]; [rewrite !prob_touch_short_circuit by auto; reflexivity|].
    destruct (Rle_dec sigma 0) as [Hs | Hs]; [rewrite !prob_touch_short_circuit by auto; reflexivity|].
    rewrite !prob_touch_formula by lra; rewrite ln_div_swap by assumption; reflexivity.
  - intros HT Hs Hne; rewrite prob_touch_formula by assumption.
    eexists; split; [reflexivity|].
    assert (Hq : 0 < S0 / K) by (apply Rdiv_lt_0_compat; assumption).
    assert (Hln : ln (S0 / K) <> 0).
    { apply ln_neq_0; [|assumption]. intros Heq.
      apply Hne; apply (Rmult_eq_reg_r (/ K)); [|apply Rinv_neq_0_compat; lra].
      rewrite Rinv_r by lra; exact Heq. }
    assert (Hz : 0 < Rabs (ln (S0 / K)) / (sigma * sqrt T0)).
    { apply Rdiv_lt_0_compat; [now apply Rabs_pos_lt | apply scale_pos; assumption]. }
    apply Phi_incr in Hz; rewrite Phi_half in Hz; lra.
Qed.

End Cdf.

(** ** Combination of the legs *)

Lemma clamp01_id (p : R) : 0 <= p <= 1 -> clamp01 p = p.
Proof.
  intros [H0 H1]; unfold clamp01.
  rewrite Rmax_left by lra; apply Rmin_left; lra.
Qed.

(** C7: for pot_call, pot_put in [0, 1], lines 147-151 keep the two leg
    probabilities and compute [prob_either = pot_call + pot_put -
    pot_call * pot_put] and [prob_neither = 1 - prob_either] (the script
    computes this Condor combination for every strategy); in particular
    (0, 0) gives either 0 and neither 1, and (1, pot_put) gives either 1
    and neither 0. *)
Theorem combine_condor (pc pp : R) :
  0 <= pc <= 1 -> 0 <= pp <= 1 ->
  combine pc pp = {| pot_call := pc; pot_put := pp;
                     prob_either_touch := pc + pp - pc * pp;
                     prob_neither_touch := 1 - (pc + pp - pc * pp) |}
  /\ prob_either_touch (combine 0 0) = 0 /\ prob_neither_touch (combine 0 0) = 1
  /\ prob_either_touch (combine 1 pp) = 1 /\ prob_neither_touch (combine 1 pp) = 0.
Proof.
  intros Hc Hp; unfold combine; cbn.
  rewrite (clamp01_id pc Hc), (clamp01_id pp Hp), (clamp01_id 0), (clamp01_id 1) by lra.
  repeat split; ring.
Qed.

(** C8: [prob_neither_touch] is defined as [1 - prob_either_touch], so the
    two sum to exactly 1 for every pair of leg values (in particular every
    pair in [0, 1] x [0, 1]), and in every run that reaches line 151. *)
Theorem either_plus_neither_is_one :
  (forall pc pp,
     prob_neither_touch (combine pc pp) = 1 - prob_either_touch (combine pc pp)
     /\ prob_either_touch (combine pc pp) + prob_neither_touch (combine pc pp) = 1)
  /\ (forall (Phi : R -> R) (inp : inputs),
        match evaluate Phi inp with
        | Ok o => prob_either_touch o + prob_neither_touch o = 1
        | Err _ => True
        end).
Proof.
  split.
  - intros pc pp; cbn; split; ring.
  - intros Phi inp; destruct (evaluate Phi inp) as [o|] eqn:E; [|exact I].
    destruct (evaluate_combine Phi inp o E) as (pc & pp & ->); cbn; ring.
Qed.

(** ** Strike resolution *)

Lemma nearest_from_spec (target : R) (l : list R) :
  forall best,
    In (nearest_from target best l) (best :: l)
    /\ forall s, In s (best :: l) ->
         Rabs (nearest_from target best l - target) <= Rabs (s - target).
Proof.
  induction l as [|x rest IH]; intros best; cbn.
  - split; [now left|]. intros s [<- | []]; lra.
  - destruct (Rltb (Rabs (x - target)) (Rabs (best - target))) eqn:E.
    + apply Rltb_spec in E.
      destruct (IH x) as [Hin Hmin]; split.
      * right; exact Hin.
      * intros s [<- | Hs].
        -- pose proof (Hmin x (or_introl eq_refl)); lra.
        -- apply Hmin; exact Hs.
    + assert (E' : ~ Rabs (x - target) < Rabs (best - target))
        by (intros H; apply Rltb_spec in H; congruence).
      destruct (IH best) as [Hin Hmin]; split.
      * destruct Hin as [Hb | Hr]; [now left | right; right; exact Hr].
      * intros s [<- | [<- | Hs]].
        -- apply Hmin; now left.
        -- pose proof (Hmin best (or_introl eq_refl)); lra.
        -- apply Hmin; right; exact Hs.
Qed.

Lemma nearest_strike_spec (strikes : list R) (target : R) :
  strikes <> [] ->
  exists k, nearest_strike strikes target = Ok k /\ In k strikes
    /\ forall s, In s strikes -> Rabs (k - target) <= Rabs (s - target).
Proof.
  destruct strikes as [|s0 rest]; [contradiction|]; intros _.
  destruct (nearest_from_spec target rest s0) as [Hin Hmin].
  exists (nearest_from target s0 rest); auto.
Qed.

(** C9: with percent-OTM strikes and non-empty chains, the call strike is a
    strike of the call chain nearest to [S (1 + pct / 100)] and the put
    strike a strike of the put chain nearest to [S (1 - pct / 100)]: no
    strike of the chain is strictly closer to the target. *)
Theorem choose_strikes_nearest (inp : inputs) :
  use_custom_strikes inp = false -> calls inp <> [] -> puts inp <> [] ->
  exists kc kp, choose_strikes inp = Ok (Some kc, Some kp)
    /\ In kc (map strike (calls inp))
    /\ (forall s, In s (map strike (calls inp)) ->
          Rabs (kc - call_target inp) <= Rabs (s - call_target inp))
    /\ In kp (map strike (puts inp))
    /\ (forall s, In s (map strike (puts inp)) ->
          Rabs (kp - put_target inp) <= Rabs (s - put_target inp)).
Proof.
  intros Hc Hcalls Hputs; unfold choose_strikes; rewrite Hc.
  assert (Nc : map strike (calls inp) <> []) by (destruct (calls inp); [contradiction | discriminate]).
  assert (Np : map strike (puts inp) <> []) by (destruct (puts inp); [contradiction | discriminate]).
  destruct (nearest_strike_spec _ (call_target inp) Nc) as (kc & Ec & Hinc & Hminc).
  destruct (nearest_strike_spec _ (put_target inp) Np) as (kp & Ep & Hinp & Hminp).
  exists kc, kp; rewrite Ec; cbn; rewrite Ep; cbn; auto.
Qed.

(** ** Missing legs *)

Lemma no_iv_row_missing (row : option (list option_row)) :
  (forall iv, first_iv row <> Ok (Some iv)) -> row_missing row = true.
Proof.
  destruct row as [[|r rows]|]; cbn; intros H; try reflexivity.
  exfalso; eapply H; reflexivity.
Qed.

(** C1: when a leg used by the selected strategy has no implied volatility
    (its chain row is absent or empty, so [row['impliedVolatility'].iloc[0]]
    gives no value), the run stops with the "strike not available" error of
    line 124; the 0 of lines 144-145 is never substituted for such a leg. *)
Theorem missing_leg_iv_signals_error (Phi : R -> R) (inp : inputs) (cs ps : option R) :
  choose_strikes inp = Ok (cs, ps) ->
  (uses_call (strategy inp) = true
     /\ (forall iv, first_iv (fst (leg_rows inp cs ps)) <> Ok (Some iv))
   \/ uses_put (strategy inp) = true
     /\ (forall iv, first_iv (snd (leg_rows inp cs ps)) <> Ok (Some iv))) ->
  evaluate Phi inp = Err StrikeUnavailable.
Proof.
  intros Hks Hleg; unfold evaluate; rewrite Hks; cbn [bind].
  unfold leg_rows in *; cbn [fst snd] in Hleg.
  destruct Hleg as [[Hu Hiv] | [Hu Hiv]]; apply no_iv_row_missing in Hiv;
    rewrite Hu, Hiv; [reflexivity | now rewrite orb_true_r].
Qed.

(** ** Instances at concrete inputs *)

Lemma ln_half_abs : Rabs (ln (1 / 1)) < Rabs (ln (1 / 2)).
Proof.
  replace (1 / 1) with 1 by field; rewrite ln_1, Rabs_R0.
  replace (1 / 2) with (/ 2) by field; rewrite ln_Rinv by lra.
  rewrite Rabs_Ropp; pose proof ln_lt_2; apply Rabs_pos_lt; lra.
Qed.

Definition sample_calls : list option_row :=
  [ {| strike := 100; impliedVolatility := 1 / 5 |};
    {| strike := 105; impliedVolatility := 1 / 5 |};
    {| strike := 110; impliedVolatility := 1 / 4 |} ].

Definition sample_puts : list option_row :=
  [ {| strike := 90; impliedVolatility := 1 / 4 |};
    {| strike := 95; impliedVolatility := 1 / 5 |} ].

Definition otm_run : inputs :=
  {| strategy := IronCondor; S := 100; T := 2 / 365;
     use_custom_strikes := false; custom_call_input := 100; custom_put_input := 100;
     pct_OTM := 2; calls := sample_calls; puts := sample_puts |}.

(** Short put at a custom strike 100 that the (empty) put chain lacks. *)
Definition short_put_missing : inputs :=
  {| strategy := ShortPut; S := 100; T := 2 / 365;
     use_custom_strikes := true; custom_call_input := 100; custom_put_input := 100;
     pct_OTM := 2; calls := sample_calls; puts := [] |}.

Lemma prob_touch_closed_form_witness :
  prob_touch Phi_ex 1 2 1 1
  = Some (2 * (1 - Phi_ex (Rabs (ln (1 / 2)) / (1 * sqrt 1)))).
Proof. apply (prob_touch_closed_form Phi_ex 1 2 1 1); lra. Defined.

Lemma prob_touch_degenerate_witness :
  prob_touch Phi_ex 5 0 0 1 = Some 0 /\ prob_touch Phi_ex 5 7 3 0 = Some 0.
Proof.
  split; apply prob_touch_degenerate; [left | right]; lra.
Defined.

Lemma prob_touch_at_the_money_witness : prob_touch Phi_ex 3 3 1 1 = Some 1.
Proof. apply (prob_touch_at_the_money Phi_ex Phi_ex_half 3 1 1); lra. Defined.

Lemma prob_touch_in_unit_interval_witness :
  exists p, prob_touch Phi_ex 1 2 1 1 = Some p /\ 0 <= p <= 1.
Proof.
  apply (proj1 (prob_touch_in_unit_interval Phi_ex Phi_ex_half Phi_ex_incr Phi_ex_le1));
    lra.
Defined.

Lemma prob_touch_strictly_decreasing_witness :
  exists p1 p2, prob_touch Phi_ex 1 1 1 1 = Some p1
    /\ prob_touch Phi_ex 1 2 1 1 = Some p2 /\ p2 < p1.
Proof.
  apply (prob_touch_strictly_decreasing Phi_ex Phi_ex_incr 1 1 2 1 1); try lra.
  exact ln_half_abs.
Defined.

Lemma prob_touch_symmetric_witness :
  prob_touch Phi_ex 1 2 1 1 = prob_touch Phi_ex 2 1 1 1
  /\ exists p, prob_touch Phi_ex 1 2 1 1 = Some p /\ p < 1.
Proof.
  destruct (prob_touch_symmetric Phi_ex Phi_ex_half Phi_ex_incr 1 2 1 1) as [Hs Hlt];
    try lra.
  split; [exact Hs | apply Hlt; lra].
Defined.

Lemma combine_condor_witness :
  combine (1 / 2) (1 / 4)
  = {| pot_call := 1 / 2; pot_put := 1 / 4;
       prob_either_touch := 1 / 2 + 1 / 4 - 1 / 2 * (1 / 4);
       prob_neither_touch := 1 - (1 / 2 + 1 / 4 - 1 / 2 * (1 / 4)) |}.
Proof. apply (combine_condor (1 / 2) (1 / 4)); lra. Defined.

Lemma choose_strikes_nearest_witness :
  exists kc kp, choose_strikes otm_run = Ok (Some kc, Some kp)
    /\ In kc (map strike (calls otm_run))
    /\ (forall s, In s (map strike (calls otm_run)) ->
          Rabs (kc - call_target otm_run) <= Rabs (s - call_target otm_run))
    /\ In kp (map strike (puts otm_run))
    /\ (forall s, In s (map strike (puts otm_run)) ->
          Rabs (kp - put_target otm_run) <= Rabs (s - put_target otm_run)).
Proof.
  apply choose_strikes_nearest; [reflexivity | discriminate | discriminate].
Defined.

Lemma missing_leg_iv_signals_error_witness :
  evaluate Phi_ex short_put_missing = Err StrikeUnavailable.
Proof.
  apply (missing_leg_iv_signals_error Phi_ex short_put_missing None (Some 100)).
  - reflexivity.
  - right; split; [reflexivity|]. intros iv; cbn; discriminate.
Defined.

(** ** Expiration choice *)

Lemma min_by_distance_spec (target : Z) (l : list Z) :
  forall best,
    In (min_by_distance target best l) (best :: l)
    /\ forall d, In d (best :: l) ->
         (Z.abs (min_by_distance target best l - target) <= Z.abs (d - target))%Z.
Proof.
  induction l as [|x rest IH]; intros best; cbn.
  - split; [now left|]. intros d [<- | []]; lia.
  - destruct (Z.abs (x - target) <? Z.abs (best - target))%Z eqn:E.
    + apply Z.ltb_lt in E.
      destruct (IH x) as [Hin Hmin]; split.
      * right; exact Hin.
      * intros d [<- | Hd].
        -- pose proof (Hmin x (or_introl eq_refl)); lia.
        -- apply Hmin; exact Hd.
    + apply Z.ltb_ge in E.
      destruct (IH best) as [Hin Hmin]; split.
      * destruct Hin as [Hb | Hr]; [now left | right; right; exact Hr].
      * intros d [<- | [<- | Hd]].
        -- apply Hmin; now left.
        -- pose proof (Hmin best (or_introl eq_refl)); lia.
        -- apply Hmin; right; exact Hd.
Qed.

(** Every item before the chosen one is strictly farther from the target. *)
Lemma min_by_distance_first (target : Z) (l : list Z) :
  forall best, exists pre suf,
    best :: l = pre ++ min_by_distance target best l :: suf
    /\ forall x, In x pre ->
         (Z.abs (min_by_distance target best l - target) < Z.abs (x - target))%Z.
Proof.
  induction l as [|x rest IH]; intros best; cbn.
  - exists [], []; split; [reflexivity | intros _ []].
  - destruct (Z.abs (x - target) <? Z.abs (best - target))%Z eqn:E.
    + apply Z.ltb_lt in E.
      destruct (IH x) as (pre & suf & Heq & Hlt).
      exists (best :: pre), suf; split; [cbn; rewrite <- Heq; reflexivity|].
      intros y [<- | Hy]; [|now apply Hlt].
      destruct (min_by_distance_spec target rest x) as [_ Hmin].
      pose proof (Hmin x (or_introl eq_refl)); lia.
    + apply Z.ltb_ge in E.
      destruct (IH best) as (pre & suf & Heq & Hlt).
      destruct pre as [|b pre0]; cbn in Heq; injection Heq as Hb Hrest.
      * exists [], (x :: rest); split; [cbn; rewrite <- Hb; reflexivity | intros _ []].
      * exists (b :: x :: pre0), suf; split; [cbn; rewrite <- Hb; do 2 f_equal; exact Hrest|].
        intros y [<- | [<- | Hy]].
        -- apply Hlt; now left.
        -- pose proof (Hlt b (or_introl eq_refl)); lia.
        -- apply Hlt; right; exact Hy.
Qed.

Lemma select_expiration_at (today days : Z) (exps : list Z) (c d : Z) :
  select_expiration today days exps = ExpiryAt c d ->
  exists d0 rest,
    filter (fun e => today <=? e)%Z exps = d0 :: rest
    /\ c = min_by_distance (today + days) d0 rest /\ d = (c - today)%Z.
Proof.
  unfold select_expiration; destruct exps as [|e0 es]; [discriminate|].
  destruct (_ || _); [discriminate|].
  destruct (filter _ _) as [|d0 rest]; [discriminate|].
  intros H; injection H as Hc Hd; exists d0, rest; subst; auto.
Qed.

(** When the chain has expirations but all of them are before today (and
    the target date is a valid date), the run stops with "No future
    expiration dates available". *)
Theorem select_expiration_no_future (today days : Z) (exps : list Z) :
  exps <> [] -> (date_min <= today + days <= date_max)%Z ->
  (forall e, In e exps -> e < today)%Z ->
  select_expiration today days exps = ExpiryStop NoFutureExpirations.
Proof.
  intros Hne Hrange Hpast; unfold select_expiration.
  destruct exps as [|e0 es]; [contradiction|].
  replace (negb (date_min <=? today + days)%Z || negb (today + days <=? date_max)%Z)
    with false by (destruct Hrange as [H1 H2];
                   apply Z.leb_le in H1, H2; rewrite H1, H2; reflexivity).
  destruct (filter _ (e0 :: es)) as [|x rest] eqn:F; [reflexivity|].
  assert (Hx : In x (filter (fun e => today <=? e)%Z (e0 :: es))) by (rewrite F; now left).
  apply filter_In in Hx as [Hin Hle]; apply Z.leb_le in Hle.
  specialize (Hpast x Hin); lia.
Qed.

(** Among future expirations equally close to the target, the one listed
    first is chosen (Python's [min] keeps the first least item). *)
Theorem select_expiration_first_of_ties (today days : Z) (exps : list Z) (c d : Z) :
  select_expiration today days exps = ExpiryAt c d ->
  exists pre suf,
    filter (fun e => today <=? e)%Z exps = pre ++ c :: suf
    /\ forall x, In x pre ->
         (Z.abs (c - (today + days)) < Z.abs (x - (today + days)))%Z.
Proof.
  intros H; destruct (select_expiration_at _ _ _ _ _ H) as (d0 & rest & F & Hc & _).
  destruct (min_by_distance_first (today + days) rest d0) as (pre & suf & Heq & Hlt).
  exists pre, suf; rewrite F, Hc; auto.
Qed.

(** When the date [today + days] is itself a listed expiration (with
    [days >= 0]), it is the one chosen, [days] days away. *)
Theorem select_expiration_exact (today days : Z) (exps : list Z) :
  In (today + days)%Z exps -> (0 <= days)%Z ->
  (date_min <= today + days <= date_max)%Z ->
  select_expiration today days exps = ExpiryAt (today + days) days.
Proof.
  intros Hin Hd Hrange; unfold select_expiration.
  destruct exps as [|e0 es]; [contradiction|].
  replace (negb (date_min <=? today + days)%Z || negb (today + days <=? date_max)%Z)
    with false by (destruct Hrange as [H1 H2];
                   apply Z.leb_le in H1, H2; rewrite H1, H2; reflexivity).
  assert (Hf : In (today + days)%Z (filter (fun e => today <=? e)%Z (e0 :: es)))
    by (apply filter_In; split; [assumption | apply Z.leb_le; lia]).
  destruct (filter _ (e0 :: es)) as [|x rest]; [contradiction|].
  destruct (min_by_distance_spec (today + days) rest x) as [_ Hmin].
  specialize (Hmin _ Hf).
  replace (today + days - (today + days))%Z with 0%Z in Hmin by lia.
  assert (Hc : min_by_distance (today + days) x rest = (today + days)%Z) by lia.
  rewrite Hc; f_equal; lia.
Qed.

(** ** Runs of lines 109-151 *)

Lemma evaluate_ok_inv (Phi : R -> R) (inp : inputs) (o : outcome) :
  evaluate Phi inp = Ok o ->
  exists cs ps civ piv pc pp,
    choose_strikes inp = Ok (cs, ps)
    /\ uses_call (strategy inp) && row_missing (filter_rows (calls inp) cs) = false
    /\ uses_put (strategy inp) && row_missing (filter_rows (puts inp) ps) = false
    /\ first_iv (filter_rows (calls inp) cs) = Ok civ
    /\ first_iv (filter_rows (puts inp) ps) = Ok piv
    /\ leg_pot Phi (S inp) (T inp) cs civ = Ok pc
    /\ leg_pot Phi (S inp) (T inp) ps piv = Ok pp
    /\ o = combine pc pp.
Proof.
  unfold evaluate, bind, leg_rows.
  destruct (choose_strikes inp) as [[cs ps]|]; [|discriminate].
  destruct (uses_call _ && _) eqn:Ec; [discriminate|].
  destruct (uses_put _ && _) eqn:Ep; [discriminate|].
  destruct (first_iv (filter_rows (calls inp) cs)) as [civ|] eqn:Ic; [|discriminate].
  destruct (first_iv (filter_rows (puts inp) ps)) as [piv|] eqn:Ip; [|discriminate].
  destruct (leg_pot Phi (S inp) (T inp) cs civ) as [pc|] eqn:Lc; [|discriminate].
  destruct (leg_pot Phi (S inp) (T inp) ps piv) as [pp|] eqn:Lp; [|discriminate].
  intros H; injection H as <-.
  exists cs, ps, civ, piv, pc, pp; repeat split; assumption.
Qed.

(** A used leg of a completed run comes from a selected strike [k], the
    first chain row [r] with that strike, and [prob_touch S k T r.iv]. *)
Lemma used_leg_source (Phi : R -> R) (rows : list option_row) (k : option R)
  (iv : option R) (p S0 T0 : R) :
  row_missing (filter_rows rows k) = false ->
  first_iv (filter_rows rows k) = Ok iv ->
  leg_pot Phi S0 T0 k iv = Ok p ->
  exists kk r rest, k = Some kk
    /\ filter (fun r => Reqb (strike r) kk) rows = r :: rest
    /\ prob_touch Phi S0 kk T0 (impliedVolatility r) = Some p.
Proof.
  destruct k as [kk|]; cbn; [|discriminate].
  destruct (filter _ rows) as [|r rest] eqn:F; [discriminate|].
  intros _ Hiv; injection Hiv as <-; cbn.
  destruct (prob_touch Phi S0 kk T0 (impliedVolatility r)) as [q|] eqn:E; cbn;
    [|discriminate].
  intros H; injection H as <-; exists kk, r, rest; auto.
Qed.

Lemma leg_pot_zero (Phi : R -> R) (S0 T0 : R) (k iv : option R) (p : R) :
  T0 <= 0 -> leg_pot Phi S0 T0 k iv = Ok p -> p = 0.
Proof.
  intros HT; destruct iv as [v|], k as [kk|]; cbn; try discriminate.
  - rewrite prob_touch_short_circuit by auto; cbn; congruence.
  - congruence.
  - congruence.
Qed.

Lemma combine_zero : combine 0 0 = {| pot_call := 0; pot_put := 0;
  prob_either_touch := 0; prob_neither_touch := 1 |}.
Proof.
  unfold combine; rewrite (clamp01_id 0) by lra; f_equal; ring.
Qed.

(** In a completed run, the POT of each leg the strategy uses is the
    clamp of [prob_touch S k T iv] for the selected strike [k] and the IV
    of the first chain row at [k]. *)
Theorem evaluate_used_leg_pot (Phi : R -> R) (inp : inputs) (o : outcome) :
  evaluate Phi inp = Ok o ->
  (uses_call (strategy inp) = true ->
     exists ps kc r rest p, choose_strikes inp = Ok (Some kc, ps)
       /\ filter (fun r => Reqb (strike r) kc) (calls inp) = r :: rest
       /\ prob_touch Phi (S inp) kc (T inp) (impliedVolatility r) = Some p
       /\ pot_call o = clamp01 p)
  /\ (uses_put (strategy inp) = true ->
     exists cs kp r rest p, choose_strikes inp = Ok (cs, Some kp)
       /\ filter (fun r => Reqb (strike r) kp) (puts inp) = r :: rest
       /\ prob_touch Phi (S inp) kp (T inp) (impliedVolatility r) = Some p
       /\ pot_put o = clamp01 p).
Proof.
  intros H; destruct (evaluate_ok_inv _ _ _ H)
    as (cs & ps & civ & piv & pc & pp & Hk & Gc & Gp & Ic & Ip & Lc & Lp & ->).
  split; intros Hu.
  - rewrite Hu in Gc; destruct (used_leg_source _ _ _ _ _ _ _ Gc Ic Lc)
      as (kc & r & rest & -> & F & P).
    exists ps, kc, r, rest, pc; auto.
  - rewrite Hu in Gp; destruct (used_leg_source _ _ _ _ _ _ _ Gp Ip Lp)
      as (kp & r & rest & -> & F & P).
    exists cs, kp, r, rest, pp; auto.
Qed.


(** With percent-OTM strikes, an empty call chain or an empty put chain
    makes the run raise, whatever the strategy (both strikes are looked up). *)
Theorem evaluate_otm_empty_chain (Phi : R -> R) (inp : inputs) :
  use_custom_strikes inp = false -> calls inp = [] \/ puts inp = [] ->
  evaluate Phi inp = Err Raised.
Proof.
  intros Hc Hempty; unfold evaluate, choose_strikes; rewrite Hc.
  destruct Hempty as [E | E].
  - rewrite E; reflexivity.
  - rewrite E; cbn.
    destruct (calls inp); reflexivity.
Qed.

(** With custom strikes, a single-leg run never looks at the other leg's
    chain; that leg's POT is 0, so "either" is the used leg's POT and
    "neither" is one minus it. *)
Theorem evaluate_custom_single_leg (Phi : R -> R) (inp : inputs) :
  use_custom_strikes inp = true ->
  (strategy inp = ShortPut ->
     (forall cs, evaluate Phi (with_calls inp cs) = evaluate Phi inp)
     /\ match evaluate Phi inp with
        | Ok o => pot_call o = 0 /\ prob_either_touch o = pot_put o
                  /\ prob_neither_touch o = 1 - pot_put o
        | Err _ => True
        end)
  /\ (strategy inp = ShortCall ->
     (forall ps, evaluate Phi (with_puts inp ps) = evaluate Phi inp)
     /\ match evaluate Phi inp with
        | Ok o => pot_put o = 0 /\ prob_either_touch o = pot_call o
                  /\ prob_neither_touch o = 1 - pot_call o
        | Err _ => True
        end).
Proof.
  intros Hc; split; intros Hs; split.
  - intros cs; unfold evaluate, choose_strikes, custom_call_strike, custom_put_strike,
      leg_rows; cbn; rewrite Hc, Hs; reflexivity.
  - destruct (evaluate Phi inp) as [o|] eqn:E; [|exact I].
    destruct (evaluate_ok_inv _ _ _ E)
      as (cs & ps & civ & piv & pc & pp & Hk & _ & _ & Ic & _ & Lc & _ & ->).
    unfold choose_strikes, custom_call_strike in Hk; rewrite Hc, Hs in Hk; cbn in Hk.
    injection Hk as <- _; cbn in Ic; injection Ic as <-; cbn in Lc; injection Lc as <-.
    cbn; rewrite (clamp01_id 0) by lra; repeat split; ring.
  - intros ps; unfold evaluate, choose_strikes, custom_call_strike, custom_put_strike,
      leg_rows; cbn; rewrite Hc, Hs; reflexivity.
  - destruct (evaluate Phi inp) as [o|] eqn:E; [|exact I].
    destruct (evaluate_ok_inv _ _ _ E)
      as (cs & ps & civ & piv & pc & pp & Hk & _ & _ & _ & Ip & _ & Lp & ->).
    unfold choose_strikes, custom_put_strike in Hk; rewrite Hc, Hs in Hk; cbn in Hk.
    injection Hk as _ <-; cbn in Ip; injection Ip as <-; cbn in Lp; injection Lp as <-.
    cbn; rewrite (clamp01_id 0) by lra; repeat split; ring.
Qed.

(** In a completed run both joint probabilities lie in [0, 1], and
    "neither" is the product [(1 - pot_call) (1 - pot_put)]. *)
Theorem evaluate_joint_in_unit (Phi : R -> R) (inp : inputs) :
  match evaluate Phi inp with
  | Ok o => 0 <= prob_either_touch o <= 1 /\ 0 <= prob_neither_touch o <= 1
            /\ prob_neither_touch o = (1 - pot_call o) * (1 - pot_put o)
  | Err _ => True
  end.
Proof.
  destruct (evaluate Phi inp) as [o|] eqn:E; [|exact I].
  destruct (evaluate_combine Phi inp o E) as (pc & pp & ->); cbn.
  pose proof (clamp01_unit pc); pose proof (clamp01_unit pp).
  repeat split; nra.
Qed.

(** ** Whole runs *)

Lemma select_expiration_not_no_live_price (today days : Z) (exps : list Z) :
  select_expiration today days exps <> ExpiryStop NoLivePrice.
Proof.
  unfold select_expiration; destruct exps; [discriminate|].
  destruct (_ || _); [discriminate|].
  destruct (filter _ _); discriminate.
Qed.

Lemma run_completed_inv (Phi : R -> R) (m : market) (today days : Z) (ui : inputs)
  (c d : Z) (o : outcome) :
  run Phi m today days ui = Completed c d o ->
  exists s, price m = Some s
    /\ select_expiration today days (expirations m) = ExpiryAt c d
    /\ evaluate Phi (with_market ui s (IZR d / 365)) = Ok o.
Proof.
  unfold run; destruct (length (closes m) <? 2)%nat; [discriminate|].
  destruct (price m) as [s|]; [|discriminate].
  destruct (select_expiration today days (expirations m)) as [msg | c' d'] eqn:Ex;
    [discriminate|].
  destruct (evaluate Phi _) as [o'|[|]] eqn:Ev; try discriminate.
  intros H; injection H as <- <- <-; exists s; auto.
Qed.

(** A run never ends with "Could not fetch live price": without a price,
    line 81 raises before the check of line 83, and the run ends in the
    generic "Something went wrong" message. *)
Theorem run_missing_price_raises (Phi : R -> R) (m : market) (today days : Z)
  (ui : inputs) :
  run Phi m today days ui <> Stopped NoLivePrice
  /\ (price m = None -> run Phi m today days ui = Stopped SomethingWentWrong).
Proof.
  unfold run; split.
  - destruct (length (closes m) <? 2)%nat; [discriminate|].
    destruct (price m) as [s|]; [|discriminate].
    destruct (select_expiration today days (expirations m)) as [msg | c d] eqn:Ex.
    + intros H; injection H as ->; exact (select_expiration_not_no_live_price _ _ _ Ex).
    + destruct (evaluate Phi _) as [o|[|]]; discriminate.
  - intros ->; destruct (length (closes m) <? 2)%nat; reflexivity.
Qed.

(** A completed run uses a listed expiration from today on, nearest to
    [today + days] among those, and [T = (closest - today) / 365 >= 0]. *)
Theorem run_completed_expiration (Phi : R -> R) (m : market) (today days : Z)
  (ui : inputs) (c d : Z) (o : outcome) :
  run Phi m today days ui = Completed c d o ->
  In c (expirations m) /\ (today <= c)%Z /\ d = (c - today)%Z
  /\ (forall e, In e (expirations m) -> (today <= e)%Z ->
        (Z.abs (c - (today + days)) <= Z.abs (e - (today + days)))%Z)
  /\ exists s, price m = Some s
       /\ evaluate Phi (with_market ui s (IZR d / 365)) = Ok o
       /\ 0 <= IZR d / 365.
Proof.
  intros H; destruct (run_completed_inv _ _ _ _ _ _ _ _ H) as (s & Hp & Hx & Hev).
  destruct (select_expiration_at _ _ _ _ _ Hx) as (d0 & rest & F & Hc & Hd).
  destruct (min_by_distance_spec (today + days) rest d0) as [Hin Hmin].
  rewrite <- Hc, <- F in Hin.
  apply filter_In in Hin as [Hin Hle]; apply Z.leb_le in Hle.
  repeat split; try assumption.
  - intros e He Hte; rewrite Hc; apply Hmin; rewrite <- F.
    apply filter_In; split; [assumption | now apply Z.leb_le].
  - exists s; repeat split; try assumption.
    unfold Rdiv; apply Rmult_le_pos; [apply IZR_le; lia | left; apply Rinv_0_lt_compat; lra].
Qed.

(** When the chosen expiration is today (0 days to expiration, so
    [T = 0]), a completed run reports POT 0 for both legs, "either" 0 and
    "neither" 1. *)
Theorem run_same_day_no_touch (Phi : R -> R) (m : market) (today days : Z)
  (ui : inputs) (o : outcome) :
  run Phi m today days ui = Completed today 0 o ->
  pot_call o = 0 /\ pot_put o = 0 /\ prob_either_touch o = 0
  /\ prob_neither_touch o = 1.
Proof.
  intros H; destruct (run_completed_inv _ _ _ _ _ _ _ _ H) as (s & _ & _ & Hev).
  destruct (evaluate_ok_inv _ _ _ Hev)
    as (cs & ps & civ & piv & pc & pp & _ & _ & _ & _ & _ & Lc & Lp & ->).
  assert (HT : T (with_market ui s (IZR 0 / 365)) <= 0) by (cbn; lra).
  apply (leg_pot_zero _ _ _ _ _ _ HT) in Lc, Lp; subst pc pp.
  rewrite combine_zero; cbn; auto.
Qed.

(** ** More instances at concrete inputs *)

Lemma evaluate_custom_put_one_row (Phi : R -> R) (inp : inputs) (k iv p : R) :
  use_custom_strikes inp = true -> strategy inp = ShortPut ->
  custom_put_input inp = k ->
  puts inp = [ {| strike := k; impliedVolatility := iv |} ] ->
  prob_touch Phi (S inp) k (T inp) iv = Some p ->
  evaluate Phi inp = Ok (combine 0 p).
Proof.
  intros Hc Hs Hk Hp Ht.
  unfold evaluate, choose_strikes, custom_call_strike, custom_put_strike, leg_rows.
  rewrite Hc, Hs, Hk, Hp; cbn.
  rewrite Reqb_true by reflexivity; cbn; rewrite Ht; reflexivity.
Qed.

Definition short_put_at (k : R) : inputs :=
  {| strategy := ShortPut; S := 100; T := 2 / 365;
     use_custom_strikes := true; custom_call_input := 100; custom_put_input := k;
     pct_OTM := 2; calls := sample_calls;
     puts := [ {| strike := k; impliedVolatility := 1 / 5 |} ] |}.

Definition sample_market (exps : list Z) : market :=
  {| price := Some 100; closes := [99; 100]; expirations := exps |}.

Definition no_price_market : market :=
  {| price := None; closes := [99; 100]; expirations := [101%Z] |}.

Lemma select_expiration_no_future_witness :
  select_expiration 100 2 [90; 95]%Z = ExpiryStop NoFutureExpirations.
Proof.
  apply select_expiration_no_future.
  - discriminate.
  - unfold date_min, date_max; lia.
  - intros e [<- | [<- | []]]; lia.
Defined.

Lemma select_expiration_first_of_ties_witness :
  exists pre suf,
    filter (fun e => 100 <=? e)%Z [98; 101; 103]%Z = pre ++ 101%Z :: suf
    /\ forall x, In x pre -> (Z.abs (101 - (100 + 2)) < Z.abs (x - (100 + 2)))%Z.
Proof. apply (select_expiration_first_of_ties 100 2 [98; 101; 103]%Z 101 1); reflexivity. Defined.

Lemma select_expiration_exact_witness :
  select_expiration 100 2 [101; 102; 105]%Z = ExpiryAt 102 2.
Proof.
  apply (select_expiration_exact 100 2 [101; 102; 105]%Z).
  - cbn; auto.
  - lia.
  - unfold date_min, date_max; lia.
Defined.

Lemma evaluate_used_leg_pot_witness :
  exists cs kp r rest p, choose_strikes (short_put_at 100) = Ok (cs, Some kp)
    /\ filter (fun r => Reqb (strike r) kp) (puts (short_put_at 100)) = r :: rest
    /\ prob_touch Phi_ex 100 kp (2 / 365) (impliedVolatility r) = Some p
    /\ pot_put (combine 0 (2 * (1 - Phi_ex (Rabs (ln (100 / 100)) / (1 / 5 * sqrt (2 / 365))))))
       = clamp01 p.
Proof.
  apply (evaluate_used_leg_pot Phi_ex (short_put_at 100)); [|reflexivity].
  apply (evaluate_custom_put_one_row Phi_ex (short_put_at 100) 100 (1 / 5));
    try reflexivity.
  apply prob_touch_formula; cbn; lra.
Defined.


Lemma evaluate_otm_empty_chain_witness :
  evaluate Phi_ex (with_puts otm_run []) = Err Raised.
Proof. apply evaluate_otm_empty_chain; [reflexivity | right; reflexivity]. Defined.

Lemma evaluate_custom_single_leg_witness :
  evaluate Phi_ex (with_calls short_put_missing []) = evaluate Phi_ex short_put_missing.
Proof.
  apply (proj1 (proj1 (evaluate_custom_single_leg Phi_ex short_put_missing eq_refl) eq_refl)).
Defined.

Lemma run_missing_price_raises_witness :
  run Phi_ex no_price_market 100 2 (short_put_at 100) = Stopped SomethingWentWrong.
Proof. apply (proj2 (run_missing_price_raises Phi_ex no_price_market 100 2 (short_put_at 100))); reflexivity. Defined.

Lemma run_short_put_completes (exps : list Z) (today days c d : Z) :
  select_expiration today days exps = ExpiryAt c d ->
  run Phi_ex (sample_market exps) today days (short_put_at 100)
  = Completed c d (combine 0
      (if Rleb (IZR d / 365) 0 then 0
       else 2 * (1 - Phi_ex (Rabs (ln (100 / 100)) / (1 / 5 * sqrt (IZR d / 365)))))).
Proof.
  intros Hx; unfold run; cbn [closes sample_market length Nat.ltb Nat.leb price expirations].
  rewrite Hx.
  destruct (Rleb (IZR d / 365) 0) eqn:Ed.
  - rewrite (evaluate_custom_put_one_row Phi_ex _ 100 (1 / 5) 0); try reflexivity.
    unfold prob_touch; cbn [T with_market]; rewrite Ed; reflexivity.
  - rewrite (evaluate_custom_put_one_row Phi_ex _ 100 (1 / 5)
      (2 * (1 - Phi_ex (Rabs (ln (100 / 100)) / (1 / 5 * sqrt (IZR d / 365))))));
      try reflexivity.
    unfold Rleb in Ed; destruct (Rle_dec (IZR d / 365) 0) as [|Hd]; [discriminate|].
    apply prob_touch_formula; cbn; lra.
Qed.

Lemma run_completed_expiration_witness :
  In 102%Z [101; 102; 105]%Z /\ (100 <= 102)%Z /\ 2%Z = (102 - 100)%Z
  /\ (forall e, In e [101; 102; 105]%Z -> (100 <= e)%Z ->
        (Z.abs (102 - (100 + 2)) <= Z.abs (e - (100 + 2)))%Z)
  /\ exists s, price (sample_market [101; 102; 105]%Z) = Some s
       /\ evaluate Phi_ex (with_market (short_put_at 100) s (IZR 2 / 365))
          = Ok (combine 0
              (if Rleb (IZR 2 / 365) 0 then 0
               else 2 * (1 - Phi_ex (Rabs (ln (100 / 100)) / (1 / 5 * sqrt (IZR 2 / 365))))))
       /\ 0 <= IZR 2 / 365.
Proof.
  apply (run_completed_expiration Phi_ex (sample_market [101; 102; 105]%Z) 100 2
           (short_put_at 100)).
  apply run_short_put_completes; reflexivity.
Defined.

Lemma run_same_day_no_touch_witness :
  pot_call (combine 0 (if Rleb (IZR 0 / 365) 0 then 0
     else 2 * (1 - Phi_ex (Rabs (ln (100 / 100)) / (1 / 5 * sqrt (IZR 0 / 365))))))
  = 0
  /\ pot_put (combine 0 (if Rleb (IZR 0 / 365) 0 then 0
     else 2 * (1 - Phi_ex (Rabs (ln (100 / 100)) / (1 / 5 * sqrt (IZR 0 / 365))))))
  = 0
  /\ prob_either_touch (combine 0 (if Rleb (IZR 0 / 365) 0 then 0
     else 2 * (1 - Phi_ex (Rabs (ln (100 / 100)) / (1 / 5 * sqrt (IZR 0 / 365))))))
  = 0
  /\ prob_neither_touch (combine 0 (if Rleb (IZR 0 / 365) 0 then 0
     else 2 * (1 - Phi_ex (Rabs (ln (100 / 100)) / (1 / 5 * sqrt (IZR 0 / 365))))))
  = 1.
Proof.
  apply (run_same_day_no_touch Phi_ex (sample_market [100; 105]%Z) 100 0 (short_put_at 100)).
  apply run_short_put_completes; reflexivity.
Defined.
